(** * ProductSummaryImage: a shallow embedding of [ProductImage.js]

    The file follows [react/components/ProductSummaryImage/ProductImage.js]:
    the two badge decorators, [findImageByLabel], the [Image] function
    component, [ProductImageContent] and the stateful [ProductImage].

    React elements are a small inductive type; a function component is the
    Rocq function of the same name.  [ProductImageContent] returns its JSX as
    written, so the [<Image .../>] children stay element nodes whose props can
    be inspected, and [renderImages] performs React's expansion of those nodes
    into [<img>] host elements.  The hooks ([useDevice], [useProduct],
    [useProductSummary], [useResponsiveValues], [useCssHandles]), the CSS
    module and [changeImageUrlSize] live outside this file's source and are
    gathered in the record [Env]. *)

From Stdlib Require Import ZArith List String Bool Lia Relations.
Import ListNotations.
Open Scope string_scope.
Open Scope list_scope.
Open Scope Z_scope.

Set Warnings "-register-all".

(** ** JavaScript values *)

(** The leaf data the component passes around without looking inside:
    urls, labels, prices, names, inline styles. *)
Inductive value : Type :=
| VUndefined
| VNull
| VBool (b : bool)
| VNum (n : Z)
| VStr (s : string)
| VObj (fields : list (string * value)).

(** [x == null]: true of [null] and [undefined] only. *)
Definition is_nullish (v : value) : bool :=
  match v with
  | VUndefined | VNull => true
  | _ => false
  end.

(** [x === s] for a string [s]: strict equality never converts. *)
Definition strict_eq_string (v : value) (s : string) : bool :=
  match v with
  | VStr t => String.eqb t s
  | _ => false
  end.

(** Truthiness of a string: only [''] is falsy. *)
Definition truthy_string (s : string) : bool :=
  negb (String.eqb s "").

(** A resolved [width] / [height] prop: a number of pixels or [undefined]. *)
Definition size : Type := option Z.

Definition truthy_size (x : size) : bool :=
  match x with
  | Some n => negb (n =? 0)
  | None => false
  end.

(** [a || b] on two sizes. *)
Definition oror (a b : size) : size :=
  if truthy_size a then a else b.

(** [a || d] where [d] is a number literal: the result is always a number. *)
Definition oror_num (a : size) (d : Z) : Z :=
  match a with
  | Some n => if negb (n =? 0) then n else d
  | None => d
  end.

(** [parseFloat] of a number: the number is printed and read back, which
    gives the number itself. *)
Definition parseFloat (n : Z) : Z := n.

(** Ramda's [compose] at two functions: right to left. *)
Definition compose {A B C : Type} (f : B -> C) (g : A -> B) : A -> C :=
  fun x => f (g x).

(** Ramda's [defaultTo], the last step of [pathOr]: the default replaces
    [null] and [undefined]. *)
Definition defaultTo (d v : value) : value :=
  if is_nullish v then d else v.

(** ** The product record (props of the product context) *)

Record ImageItem : Type := {
  imageLabel : value;
  imageUrl : value
}.

Record CommertialOffer : Type := {
  ListPrice : value;
  Price : value
}.

Record Seller : Type := {
  commertialOffer : option CommertialOffer
}.

Record Sku : Type := {
  images : option (list ImageItem);
  image : option ImageItem;
  seller : option Seller
}.

Record Cluster : Type := {
  name : value
}.

Record Product : Type := {
  productName : value;
  productClusters : option (list Cluster);
  sku : option Sku
}.

(** The object [{}] read as a commercial offer: every field is [undefined]. *)
Definition emptyOffer : CommertialOffer :=
  {| ListPrice := VUndefined; Price := VUndefined |}.

(** ** Display options and ambient inputs *)

Record DisplayOptions : Type := {
  showBadge : bool;
  badgeText : value;
  displayMode : string;
  mainImageLabel : string;
  hoverImageLabel : string;
  showCollections : bool
}.

(** [ProductImage.defaultProps]. *)
Definition defaultProps : DisplayOptions :=
  {| showBadge := true;
     badgeText := VUndefined;
     displayMode := "normal";
     mainImageLabel := "";
     hoverImageLabel := "";
     showCollections := false |}.

(** A [width] / [height] prop before the responsive-values hook: a number or
    a mapping from breakpoints to numbers. *)
Inductive SizeProp : Type :=
| SizeUndefined
| SizeNumber (n : Z)
| SizeResponsive (byDevice : list (string * Z)).

Record Env : Type := {
  (** [useDevice().isMobile] *)
  isMobile : bool;
  (** [useProduct().skuSelector.selectedImageVariationSKU] *)
  selectedImageVariationSKU : value;
  (** [useProductSummary().product] *)
  summaryProduct : option Product;
  (** [useResponsiveValues({ widthProp, heightProp })] *)
  useResponsiveValues : SizeProp -> SizeProp -> size * size;
  (** [changeImageUrlSize] of [utils/normalize] *)
  changeImageUrlSize : value -> Z -> Z -> value;
  (** the class name [useCssHandles] generates for a handle *)
  cssHandle : string -> string;
  (** [applyModifiers] of [vtex.css-handles] *)
  applyModifiers : string -> string -> string;
  (** the CSS module [productSummary.css] *)
  productSummary : string -> string
}.

Definition CSS_HANDLES : list string :=
  ["image"; "imageContainer"; "product"; "imagePlaceholder"].

(** [useCssHandles(CSS_HANDLES)]: an object with one class name per listed
    handle; reading any other key gives [undefined]. *)
Definition useCssHandles (env : Env) (names : list string)
  : string -> option string :=
  fun key =>
    if existsb (String.eqb key) names then Some (cssHandle env key) else None.

(** ** classNames *)

Inductive cn_arg : Type :=
| CnStr (s : option string)
| CnObj (entries : list (string * bool)).

(** An object literal with computed keys: a repeated key keeps its first
    position and takes the last value. *)
Fixpoint obj_set (k : string) (v : bool) (o : list (string * bool))
  : list (string * bool) :=
  match o with
  | [] => [(k, v)]
  | (k', v') :: rest =>
      if String.eqb k k' then (k', v) :: rest else (k', v') :: obj_set k v rest
  end.

Definition object (entries : list (string * bool)) : list (string * bool) :=
  fold_left (fun o kv => obj_set (fst kv) (snd kv) o) entries [].

Definition cn_classes (a : cn_arg) : list string :=
  match a with
  | CnStr (Some s) => if truthy_string s then [s] else []
  | CnStr None => []
  | CnObj entries => map fst (filter snd entries)
  end.

Definition classNames (args : list cn_arg) : string :=
  String.concat " " (flat_map cn_classes args).

(** ** React elements *)

(** [() => setError(b)]: an error callback is the state update it performs. *)
Inductive callback : Type :=
| SetError (b : bool).

Record ImageProps : Type := {
  src : value;
  width : Z;
  height : Z;
  onError : callback;
  alt : value;
  className : string
}.

Record ImgAttrs : Type := {
  img_src : value;
  img_style : value;
  img_loading : string;
  img_alt : value;
  img_className : string;
  img_onError : callback
}.

Inductive element : Type :=
| Nothing
| Div (cls : string) (children : list element)
| Img (attrs : ImgAttrs)
| ImageElt (props : ImageProps)
| ImagePlaceholder (handle : option string)
| DiscountBadge (listPrice sellingPrice label : value) (child : element)
| CollectionBadges (collectionBadgesText : list value) (child : element).

(** Induction over elements that also covers the children of a [Div]. *)
Section ElementInduction.
Variable P : element -> Prop.
Hypothesis P_Nothing : P Nothing.
Hypothesis P_Div : forall c children, Forall P children -> P (Div c children).
Hypothesis P_Img : forall a, P (Img a).
Hypothesis P_ImageElt : forall p, P (ImageElt p).
Hypothesis P_ImagePlaceholder : forall hd, P (ImagePlaceholder hd).
Hypothesis P_DiscountBadge :
  forall lp sp lb child, P child -> P (DiscountBadge lp sp lb child).
Hypothesis P_CollectionBadges :
  forall txt child, P child -> P (CollectionBadges txt child).

Fixpoint element_tree_ind (e : element) : P e :=
  match e with
  | Nothing => P_Nothing
  | Div c children =>
      P_Div c children
        ((fix all (l : list element) : Forall P l :=
            match l with
            | [] => Forall_nil P
            | x :: rest => Forall_cons x (element_tree_ind x) (all rest)
            end) children)
  | Img a => P_Img a
  | ImageElt p => P_ImageElt p
  | ImagePlaceholder hd => P_ImagePlaceholder hd
  | DiscountBadge lp sp lb child =>
      P_DiscountBadge lp sp lb child (element_tree_ind child)
  | CollectionBadges txt child =>
      P_CollectionBadges txt child (element_tree_ind child)
  end.
End ElementInduction.

(** ** Badge decorators (lines 21-42) *)

Record BadgeProps : Type := {
  badge_listPrice : value;
  badge_price : value;
  badge_label : value
}.

Definition maybeBadge (p : BadgeProps) (shouldShow : bool)
  (component : element) : element :=
  if shouldShow
  then DiscountBadge (badge_listPrice p) (badge_price p) (badge_label p)
         component
  else component.

Definition maybeCollection (clusters : option (list Cluster))
  (shouldShow : bool) (component : element) : element :=
  match clusters with
  | Some cls =>
      if shouldShow && (0 <? Z.of_nat (List.length cls))
      then
        let collections := map name cls in
        CollectionBadges collections component
      else component
  | None => component
  end.

(** ** findImageByLabel (lines 44-49) *)

Definition findImageByLabel (imgs : list ImageItem) (selectedLabel : string)
  : option ImageItem :=
  if negb (truthy_string selectedLabel)
  then None
  else find (fun i => strict_eq_string (imageLabel i) selectedLabel) imgs.

(** ** Image (lines 51-87) *)

Definition shouldResize (w h : Z) : bool :=
  negb (negb (negb (w =? 0) || negb (h =? 0))).

Definition resizeStyle (w h : Z) : value :=
  VObj [("width", VStr "100%");
        ("height", VNum h);
        ("objectFit", VStr "contain");
        ("maxHeight", VStr "unset");
        ("maxWidth", VNum w)].

(** Line 61: the pixel-density guess. *)
Definition dpi (env : Env) : Z :=
  if isMobile env then 2 else 1.

Definition Image (env : Env) (p : ImageProps) : element :=
  let resize := shouldResize (width p) (height p) in
  Img {| img_src :=
           if resize
           then changeImageUrlSize env (src p)
                  (width p * dpi env) (height p * dpi env)
           else src p;
         img_style := if resize then resizeStyle (width p) (height p) else VNull;
         img_loading := if resize then "lazy" else "auto";
         img_alt := alt p;
         img_className := className p;
         img_onError := onError p |}.

(** ** ProductImageContent (lines 89-204) *)

(** Lines 111-115: each dimension falls back to the other one, then to 0. *)
Definition resolveSize (widthProp heightProp : size) : Z * Z :=
  (parseFloat (oror_num (oror widthProp heightProp) 0),
   parseFloat (oror_num (oror heightProp widthProp) 0)).

(** Lines 117-126. *)
Definition containerClassname (env : Env) : string :=
  let handles := useCssHandles env CSS_HANDLES in
  let legacyContainerClasses :=
    classNames [CnStr (Some (productSummary env "imageStackContainer"));
                CnStr (Some (productSummary env "hoverEffect"))] in
  classNames [CnStr (Some "dib relative");
              CnStr (handles "imageContainer");
              CnStr (Some legacyContainerClasses)].

(** Lines 129-133: what is returned when there is nothing to show. *)
Definition placeholder (env : Env) : element :=
  let handles := useCssHandles env CSS_HANDLES in
  Div (containerClassname env) [ImagePlaceholder (handles "productImage")].

(** Line 136: [pathOr([], ['images'], sku)]. *)
Definition skuImages (s : Sku) : list ImageItem :=
  match images s with
  | Some l => l
  | None => []
  end.

(** Line 139: [pathOr({}, ['image', 'imageUrl'], sku)]. *)
Definition defaultImageUrl (s : Sku) : value :=
  defaultTo (VObj [])
    match image s with
    | Some i => imageUrl i
    | None => VUndefined
    end.

(** Lines 139-146: the url of the primary image. *)
Definition primaryImageUrl (env : Env) (s : Sku) (mainLabel : string) : value :=
  let imageUrl0 := defaultImageUrl s in
  if is_nullish (selectedImageVariationSKU env) && truthy_string mainLabel
  then
    match findImageByLabel (skuImages s) mainLabel with
    | Some mainImage => imageUrl mainImage
    | None => imageUrl0
    end
  else imageUrl0.

(** Lines 148-151. *)
Definition legacyImageClasses (env : Env) (mode : string) : string :=
  classNames
    [CnObj (object
       [(productSummary env "imageNormal", negb (String.eqb mode "inline"));
        (productSummary env "imageInline", String.eqb mode "inline")])].

(** Lines 154-158: [pathOr({}, ['sku', 'seller', 'commertialOffer'], product)]. *)
Definition productOffer (product : option Product) : CommertialOffer :=
  match product with
  | Some p =>
      match sku p with
      | Some s =>
          match seller s with
          | Some sl =>
              match commertialOffer sl with
              | Some co => co
              | None => emptyOffer
              end
          | None => emptyOffer
          end
      | None => emptyOffer
      end
  | None => emptyOffer
  end.

(** Line 109: [product && product.sku]. *)
Definition productSku (product : option Product) : option Sku :=
  match product with
  | Some p => sku p
  | None => None
  end.

(** Lines 177-198: the container with the primary image and, when a hover
    image was found and the device is not mobile, the hover image. *)
Definition baseComposition (env : Env) (s : Sku) (onErr : callback)
  (opts : DisplayOptions) (nm : value) (w h : Z) : element :=
  let handles := useCssHandles env CSS_HANDLES in
  let hoverImage := findImageByLabel (skuImages s) (hoverImageLabel opts) in
  let url := primaryImageUrl env s (mainImageLabel opts) in
  let legacy := legacyImageClasses env (displayMode opts) in
  let imageClassname :=
    classNames [CnStr (Some legacy); CnStr (handles "image")] in
  let hoverImageClassname :=
    classNames
      [CnStr (Some "w-100 h-100 dn absolute top-0 left-0 z-999");
       CnStr (option_map (fun hd => applyModifiers env hd "hover")
                (handles "image"));
       CnStr (Some legacy);
       CnStr (Some (productSummary env "hoverImage"))] in
  Div (containerClassname env)
    [ImageElt {| src := url; width := w; height := h;
                 onError := onErr; alt := nm;
                 className := imageClassname |};
     match hoverImage with
     | Some hover =>
         if negb (isMobile env)
         then ImageElt {| src := imageUrl hover; width := w; height := h;
                          onError := onErr; alt := nm;
                          className := hoverImageClassname |}
         else Nothing
     | None => Nothing
     end].

Definition ProductImageContent (env : Env) (product : option Product)
  (onErr : callback) (hasError : bool) (opts : DisplayOptions)
  (widthProp heightProp : size) : element :=
  let clusters :=
    match product with Some p => productClusters p | None => None end in
  let nm :=
    match product with Some p => productName p | None => VUndefined end in
  let (w, h) := resolveSize widthProp heightProp in
  match productSku product with
  | None => placeholder env
  | Some s =>
      if hasError then placeholder env
      else
        let offer := productOffer product in
        let withBadge :=
          maybeBadge {| badge_listPrice := ListPrice offer;
                        badge_price := Price offer;
                        badge_label := badgeText opts |} in
        let withCollection := maybeCollection clusters in
        let img := baseComposition env s onErr opts nm w h in
        compose (withBadge (showBadge opts))
                (withCollection (showCollections opts)) img
  end.

(** ** ProductImage (lines 206-246) *)

(** The only piece of state: the [error] cell of [useState(false)]. *)
Definition State : Type := bool.



Definition imageClassName (env : Env) (mode : string) : string :=
  classNames
    [CnStr (Some (productSummary env "imageContainer"));
     CnObj (object [("db w-100 center", negb (String.eqb mode "inline"))])].

Definition ProductImage (env : Env) (opts : DisplayOptions)
  (widthProp heightProp : SizeProp) (error : State) : element :=
  let product := summaryProduct env in
  let (w, h) := useResponsiveValues env widthProp heightProp in
  Div (imageClassName env (displayMode opts))
    [ProductImageContent env product (SetError true) error opts w h].

(** ** Looking at rendered trees *)

(** React's expansion of the [<Image/>] nodes into [<img>] host elements. *)
Fixpoint renderImages (env : Env) (e : element) : element :=
  match e with
  | Nothing => Nothing
  | Div c children => Div c (map (renderImages env) children)
  | Img a => Img a
  | ImageElt p => Image env p
  | ImagePlaceholder hd => ImagePlaceholder hd
  | DiscountBadge lp sp lb child => DiscountBadge lp sp lb (renderImages env child)
  | CollectionBadges txt child => CollectionBadges txt (renderImages env child)
  end.

(** The props of the [<Image/>] nodes of a tree, in document order. *)
Fixpoint imageProps (e : element) : list ImageProps :=
  match e with
  | Nothing => []
  | Div _ children => flat_map imageProps children
  | Img _ => []
  | ImageElt p => [p]
  | ImagePlaceholder _ => []
  | DiscountBadge _ _ _ child => imageProps child
  | CollectionBadges _ child => imageProps child
  end.

(** The [<img>] host elements of a tree, in document order. *)
Fixpoint imgs (e : element) : list ImgAttrs :=
  match e with
  | Nothing => []
  | Div _ children => flat_map imgs children
  | Img a => [a]
  | ImageElt _ => []
  | ImagePlaceholder _ => []
  | DiscountBadge _ _ _ child => imgs child
  | CollectionBadges _ child => imgs child
  end.

(** The badge wrappers of a tree, counted. *)
Fixpoint badges (e : element) : nat :=
  match e with
  | Nothing => 0
  | Div _ children => list_sum (map badges children)
  | Img _ => 0
  | ImageElt _ => 0
  | ImagePlaceholder _ => 0
  | DiscountBadge _ _ _ child => S (badges child)
  | CollectionBadges _ child => S (badges child)
  end.

(** ** Transitions of the error state *)

(** The error callbacks that a render of [ProductImage] attaches to its
    [<img>] elements. *)
Definition errorCallbacks (env : Env) (opts : DisplayOptions)
  (widthProp heightProp : SizeProp) (st : State) : list callback :=
  map img_onError
    (imgs (renderImages env (ProductImage env opts widthProp heightProp st))).



(** ** A storefront to evaluate the component on *)

Definition storefront : Env :=
  {| isMobile := false;
     selectedImageVariationSKU := VNull;
     summaryProduct := None;
     useResponsiveValues := fun wp hp =>
       let pick x :=
         match x with
         | SizeNumber n => Some n
         | SizeResponsive ((_, n) :: _) => Some n
         | _ => None
         end in
       (pick wp, pick hp);
     changeImageUrlSize := fun url w h =>
       VObj [("url", url); ("width", VNum w); ("height", VNum h)];
     cssHandle := fun key => String.append "vtex-product-summary-2-x-" key;
     applyModifiers := fun hd m =>
       String.concat "" [hd; " "; hd; "--"; m];
     productSummary := fun key => String.append "productSummary_" key |}.

Definition frontImage : ImageItem :=
  {| imageLabel := VStr "front"; imageUrl := VStr "/arquivos/front.png" |}.

Definition backImage : ImageItem :=
  {| imageLabel := VStr "back"; imageUrl := VStr "/arquivos/back.png" |}.

Definition shoeSku : Sku :=
  {| images := Some [frontImage; backImage];
     image := Some frontImage;
     seller :=
       Some {| commertialOffer :=
                 Some {| ListPrice := VNum 120; Price := VNum 90 |} |} |}.

Definition shoe : Product :=
  {| productName := VStr "Shoe";
     productClusters := Some [{| name := VStr "Summer" |};
                              {| name := VStr "Sale" |}];
     sku := Some shoeSku |}.

(** A sku whose [image] field is missing. *)
Definition bareSku : Sku :=
  {| images := Some [frontImage; backImage]; image := None; seller := None |}.

Definition bareShoe : Product :=
  {| productName := VStr "Shoe"; productClusters := None; sku := Some bareSku |}.


Definition hoverOptions : DisplayOptions :=
  {| showBadge := true;
     badgeText := VStr "OFF";
     displayMode := "normal";
     mainImageLabel := "";
     hoverImageLabel := "back";
     showCollections := true |}.

(** * Properties *)

(** ** Values and labels *)

Lemma strict_eq_string_true (v : value) (s : string) :
  strict_eq_string v s = true <-> v = VStr s.
Proof.
  destruct v; simpl; try (split; [discriminate | congruence]).
  rewrite String.eqb_eq. split; congruence.
Qed.

Lemma strict_eq_string_false (v : value) (s : string) :
  strict_eq_string v s = false <-> v <> VStr s.
Proof.
  rewrite <- strict_eq_string_true.
  destruct (strict_eq_string v s); split; congruence.
Qed.

Lemma truthy_string_true (s : string) :
  truthy_string s = true <-> s <> "".
Proof.
  unfold truthy_string. rewrite negb_true_iff, String.eqb_neq. tauto.
Qed.

Lemma truthy_string_false (s : string) :
  truthy_string s = false <-> s = "".
Proof.
  unfold truthy_string. rewrite negb_false_iff, String.eqb_eq. tauto.
Qed.

(** [Array.prototype.find] returns the first element that passes the test. *)
Lemma find_first {A : Type} (f : A -> bool) (l : list A) (x : A) :
  find f l = Some x <->
  exists pre post,
    l = pre ++ x :: post /\ f x = true /\ Forall (fun y => f y = false) pre.
Proof.
  induction l as [|a l IH]; simpl.
  - split; [discriminate|].
    intros (pre & post & E & _). destruct pre; discriminate.
  - destruct (f a) eqn:Fa.
    + split.
      * intros [= <-]. exists [], l. auto.
      * intros (pre & post & E & Fx & Hpre).
        destruct pre as [|b pre]; simpl in E; injection E as -> E.
        -- reflexivity.
        -- inversion Hpre; congruence.
    + rewrite IH. split.
      * intros (pre & post & -> & Fx & Hpre).
        exists (a :: pre), post. auto.
      * intros (pre & post & E & Fx & Hpre).
        destruct pre as [|b pre]; simpl in E; injection E as -> E.
        -- congruence.
        -- exists pre, post. inversion Hpre; auto.
Qed.

Lemma find_nothing {A : Type} (f : A -> bool) (l : list A) :
  find f l = None <-> Forall (fun y => f y = false) l.
Proof.
  induction l as [|a l IH]; simpl.
  - split; auto.
  - destruct (f a) eqn:Fa.
    + split; [discriminate|]. intros H. inversion H; congruence.
    + rewrite IH. split; [auto|]. intros H. inversion H; auto.
Qed.

(** What [findImageByLabel] finds: nothing for the empty label, otherwise the
    first image whose label is the selected one. *)
Lemma findImageByLabel_empty (l : list ImageItem) :
  findImageByLabel l "" = None.
Proof. reflexivity. Qed.

Lemma findImageByLabel_some (l : list ImageItem) (lbl : string) (m : ImageItem) :
  findImageByLabel l lbl = Some m <->
  lbl <> "" /\
  exists pre post,
    l = pre ++ m :: post /\ imageLabel m = VStr lbl /\
    Forall (fun i => imageLabel i <> VStr lbl) pre.
Proof.
  unfold findImageByLabel.
  destruct (truthy_string lbl) eqn:T; simpl.
  - apply truthy_string_true in T. rewrite find_first. split.
    + intros (pre & post & E & Hm & Hpre). split; [assumption|].
      exists pre, post. rewrite <- strict_eq_string_true. repeat split; auto.
      eapply Forall_impl; [|exact Hpre].
      intros i Hi. now apply strict_eq_string_false.
    + intros (_ & pre & post & E & Hm & Hpre).
      exists pre, post. rewrite strict_eq_string_true. repeat split; auto.
      eapply Forall_impl; [|exact Hpre].
      intros i Hi. now apply strict_eq_string_false.
  - apply truthy_string_false in T. split; [discriminate|].
    intros [Hne _]. contradiction.
Qed.

Lemma findImageByLabel_none (l : list ImageItem) (lbl : string) :
  findImageByLabel l lbl = None <->
  lbl = "" \/ Forall (fun i => imageLabel i <> VStr lbl) l.
Proof.
  unfold findImageByLabel.
  destruct (truthy_string lbl) eqn:T; simpl.
  - apply truthy_string_true in T. rewrite find_nothing. split.
    + intros H. right. eapply Forall_impl; [|exact H].
      intros i Hi. now apply strict_eq_string_false.
    + intros [E|H]; [contradiction|].
      eapply Forall_impl; [|exact H].
      intros i Hi. now apply strict_eq_string_false.
  - apply truthy_string_false in T. split; auto.
Qed.

(** Some image carries the label exactly when a first such image exists. *)
Lemma labelled_image_found (l : list ImageItem) (lbl : string) :
  lbl <> "" ->
  (exists i, In i l /\ imageLabel i = VStr lbl) <->
  (exists m, findImageByLabel l lbl = Some m).
Proof.
  intros Hne. split.
  - intros (i & Hin & Hi).
    destruct (findImageByLabel l lbl) as [m|] eqn:F; [eauto|].
    apply findImageByLabel_none in F. destruct F as [E|F]; [contradiction|].
    rewrite Forall_forall in F. exfalso. exact (F i Hin Hi).
  - intros (m & F). apply findImageByLabel_some in F.
    destruct F as (_ & pre & post & -> & Hm & _).
    exists m. split; [|assumption]. apply in_or_app. right. now left.
Qed.

(** ** Badge decorators *)

Lemma maybeCollection_wraps (cls : list Cluster) (c : Cluster) (e : element) :
  maybeCollection (Some (c :: cls)) true e
  = CollectionBadges (map name (c :: cls)) e.
Proof.
  unfold maybeCollection.
  replace (0 <? Z.of_nat (List.length (c :: cls))) with true; [reflexivity|].
  symmetry. apply Z.ltb_lt. simpl List.length. lia.
Qed.

(** C7: a badge decorator whose flag is false gives back the element it was
    given; so does the collections decorator whenever there is no cluster
    list or the list is empty, whatever its flag. *)
Theorem decorators_are_identity_when_off
  (bp : BadgeProps) (clusters : option (list Cluster)) (flag : bool)
  (e : element) :
  maybeBadge bp false e = e /\
  maybeCollection clusters false e = e /\
  maybeCollection None flag e = e /\
  maybeCollection (Some []) flag e = e.
Proof.
  repeat split.
  - destruct clusters; reflexivity.
  - destruct flag; reflexivity.
Qed.

(** ** Width and height *)

Lemma oror_num_zero (a : size) :
  oror_num a 0 = match a with Some n => n | None => 0 end.
Proof.
  destruct a as [n|]; simpl; [|reflexivity].
  destruct (Z.eqb_spec n 0); simpl; congruence.
Qed.

Lemma resolveSize_cases (wp hp : size) :
  resolveSize wp hp =
  match truthy_size wp, truthy_size hp with
  | true, true => (oror_num wp 0, oror_num hp 0)
  | true, false => (oror_num wp 0, oror_num wp 0)
  | false, true => (oror_num hp 0, oror_num hp 0)
  | false, false => (0, 0)
  end.
Proof.
  unfold resolveSize, parseFloat, oror.
  destruct wp as [w|], hp as [h|]; simpl;
    repeat match goal with
           | |- context [?n =? 0] => destruct (Z.eqb_spec n 0); simpl
           end; subst; try reflexivity; try congruence.
Qed.

(** C3: for every pair of width and height props the resolved pair is the
    mutual fallback: a prop that is given and not 0 is kept, a prop that is
    missing (or 0) takes the value of the other one, and when neither is
    there both are 0.  So two props that are both given and not 0 resolve to
    themselves, as width 300 with height 200; when only one of the two is
    supplied both resolve to it, as width 100 with no height; when neither is
    supplied both resolve to 0, and [Image] does not resize. *)
Theorem resolveSize_mutual_fallback (wp hp : size) (n : Z) :
  resolveSize wp hp =
  match wp, hp with
  | Some w, Some h => (if w =? 0 then h else w, if h =? 0 then w else h)
  | Some w, None => (w, w)
  | None, Some h => (h, h)
  | None, None => (0, 0)
  end /\
  (forall w h, w <> 0 -> h <> 0 -> resolveSize (Some w) (Some h) = (w, h)) /\
  resolveSize (Some 300) (Some 200) = (300, 200) /\
  resolveSize (Some n) None = (n, n) /\
  resolveSize None (Some n) = (n, n) /\
  resolveSize (Some 100) None = (100, 100) /\
  resolveSize None None = (0, 0) /\
  shouldResize (fst (resolveSize None None)) (snd (resolveSize None None))
  = false.
Proof.
  assert (Hall : forall a b,
            resolveSize a b =
            match a, b with
            | Some w, Some h =>
                (if w =? 0 then h else w, if h =? 0 then w else h)
            | Some w, None => (w, w)
            | None, Some h => (h, h)
            | None, None => (0, 0)
            end).
  { intros a b. rewrite resolveSize_cases.
    destruct a as [w|], b as [h|]; simpl;
      repeat match goal with
             | |- context [?x =? 0] => destruct (Z.eqb_spec x 0); simpl
             end; subst; try reflexivity; try congruence. }
  split; [apply Hall|].
  split.
  { intros w h Hw Hh. rewrite Hall.
    destruct (Z.eqb_spec w 0), (Z.eqb_spec h 0); congruence. }
  repeat split; apply Hall.
Qed.

(** ** The image renderer *)

Lemma shouldResize_true (w h : Z) :
  shouldResize w h = true <-> w <> 0 \/ h <> 0.
Proof.
  unfold shouldResize. rewrite negb_involutive, orb_true_iff.
  rewrite !negb_true_iff, !Z.eqb_neq. tauto.
Qed.

Lemma shouldResize_false (w h : Z) :
  shouldResize w h = false <-> w = 0 /\ h = 0.
Proof.
  unfold shouldResize. rewrite negb_involutive, orb_false_iff.
  rewrite !negb_false_iff, !Z.eqb_eq. tauto.
Qed.

(** C8, as the code has it: the density is 2 on a mobile device and 1
    otherwise; the image is resized exactly when width or height is not 0.
    A resized image asks [changeImageUrlSize] for width and height times the
    density, carries the sizing style (width 100%, the height, object-fit
    contain, max-height unset, max-width the width) and loads lazily.
    Otherwise the source is passed on as it is, the style is [null] and the
    loading attribute is ['auto'], the browser's own policy, not ['eager']. *)
Theorem Image_resize_behaviour (env : Env) (p : ImageProps) :
  dpi env = (if isMobile env then 2 else 1) /\
  (shouldResize (width p) (height p) = true <->
   width p <> 0 \/ height p <> 0) /\
  (shouldResize (width p) (height p) = true ->
   Image env p =
   Img {| img_src :=
            changeImageUrlSize env (src p)
              (width p * dpi env) (height p * dpi env);
          img_style :=
            VObj [("width", VStr "100%");
                  ("height", VNum (height p));
                  ("objectFit", VStr "contain");
                  ("maxHeight", VStr "unset");
                  ("maxWidth", VNum (width p))];
          img_loading := "lazy";
          img_alt := alt p;
          img_className := className p;
          img_onError := onError p |}) /\
  (shouldResize (width p) (height p) = false ->
   Image env p =
   Img {| img_src := src p;
          img_style := VNull;
          img_loading := "auto";
          img_alt := alt p;
          img_className := className p;
          img_onError := onError p |}).
Proof.
  split; [reflexivity|].
  split; [apply shouldResize_true|].
  split; intros R; unfold Image; rewrite R; reflexivity.
Qed.

(** A resized image and an image left alone, evaluated on a desktop. *)
Lemma Image_resize_behaviour_witness :
  let p := {| src := VStr "/arquivos/front.png"; width := 100; height := 0;
              onError := SetError true; alt := VStr "Shoe";
              className := "image" |} in
  let q := {| src := VStr "/arquivos/front.png"; width := 0; height := 0;
              onError := SetError true; alt := VStr "Shoe";
              className := "image" |} in
  map img_src (imgs (Image storefront p))
  = [VObj [("url", VStr "/arquivos/front.png");
           ("width", VNum 100); ("height", VNum 0)]] /\
  map img_loading (imgs (Image storefront p)) = ["lazy"] /\
  map img_src (imgs (Image storefront q)) = [VStr "/arquivos/front.png"] /\
  map img_style (imgs (Image storefront q)) = [VNull].
Proof.
  intros p q.
  destruct (Image_resize_behaviour storefront p) as (_ & _ & Hp & _).
  destruct (Image_resize_behaviour storefront q) as (_ & _ & _ & Hq).
  rewrite (Hp eq_refl), (Hq eq_refl). repeat split.
Defined.

(** C8, the counterexample: an image that is not resized (width 0 and
    height 0) gets the loading attribute ['auto'], which is not ['eager']. *)
Lemma Image_not_resized_loading_is_auto :
  shouldResize 0 0 = false /\
  map img_loading
    (imgs (Image storefront
             {| src := VStr "/arquivos/front.png"; width := 0; height := 0;
                onError := SetError true; alt := VStr "Shoe";
                className := "image" |}))
  = ["auto"] /\
  "auto" <> "eager".
Proof.
  repeat split. discriminate.
Qed.

Lemma resolveSize_both (w h : Z) :
  w <> 0 -> h <> 0 -> resolveSize (Some w) (Some h) = (w, h).
Proof.
  intros Hw Hh. rewrite resolveSize_cases. simpl.
  destruct (Z.eqb_spec w 0), (Z.eqb_spec h 0); simpl; congruence.
Qed.

(** A width of 0 is falsy: it counts as not supplied. *)
Lemma resolveSize_zero_width (h : Z) :
  resolveSize (Some 0) (Some h) = (h, h).
Proof.
  rewrite resolveSize_cases. simpl.
  destruct (Z.eqb_spec h 0); simpl; congruence.
Qed.

(** ** The content resolver *)

Lemma imageProps_maybeBadge (bp : BadgeProps) (b : bool) (e : element) :
  imageProps (maybeBadge bp b e) = imageProps e.
Proof. destruct b; reflexivity. Qed.

Lemma imageProps_maybeCollection
  (clusters : option (list Cluster)) (b : bool) (e : element) :
  imageProps (maybeCollection clusters b e) = imageProps e.
Proof.
  unfold maybeCollection. destruct clusters as [cls|]; [|reflexivity].
  destruct (b && _); reflexivity.
Qed.

(** The result of [ProductImageContent] past the guard of line 128. *)
Lemma ProductImageContent_shown (env : Env) (p : Product) (s : Sku)
  (onErr : callback) (opts : DisplayOptions) (wp hp : size) :
  sku p = Some s ->
  ProductImageContent env (Some p) onErr false opts wp hp =
  maybeBadge
    {| badge_listPrice := ListPrice (productOffer (Some p));
       badge_price := Price (productOffer (Some p));
       badge_label := badgeText opts |}
    (showBadge opts)
    (maybeCollection (productClusters p) (showCollections opts)
       (baseComposition env s onErr opts (productName p)
          (fst (resolveSize wp hp)) (snd (resolveSize wp hp)))).
Proof.
  intros Hs. unfold ProductImageContent, productSku. rewrite Hs.
  destruct (resolveSize wp hp) as [w h]. reflexivity.
Qed.

Lemma ProductImageContent_guard (env : Env) (product : option Product)
  (onErr : callback) (hasError : bool) (opts : DisplayOptions)
  (wp hp : size) :
  productSku product = None \/ hasError = true ->
  ProductImageContent env product onErr hasError opts wp hp = placeholder env.
Proof.
  intros H. unfold ProductImageContent.
  destruct (resolveSize wp hp) as [w h].
  destruct (productSku product) as [s|]; [|reflexivity].
  destruct H as [H| ->]; [discriminate|reflexivity].
Qed.

(** The [<Image/>] nodes of the base composition: the primary image, then the
    hover image if one was found and the device is not mobile. *)
Lemma imageProps_baseComposition (env : Env) (s : Sku) (onErr : callback)
  (opts : DisplayOptions) (nm : value) (w h : Z) :
  exists cls hoverCls,
    imageProps (baseComposition env s onErr opts nm w h) =
    {| src := primaryImageUrl env s (mainImageLabel opts);
       width := w; height := h; onError := onErr; alt := nm;
       className := cls |} ::
    match findImageByLabel (skuImages s) (hoverImageLabel opts) with
    | Some hover =>
        if isMobile env then []
        else [{| src := imageUrl hover; width := w; height := h;
                 onError := onErr; alt := nm; className := hoverCls |}]
    | None => []
    end.
Proof.
  unfold baseComposition. do 2 eexists.
  destruct (findImageByLabel (skuImages s) (hoverImageLabel opts));
    [destruct (isMobile env)|]; simpl; reflexivity.
Qed.

(** C1: without a sku, or once the error flag is set, the content resolver
    returns the placeholder in its container, whatever the product, the
    options and the sizes are; the result holds no image and no badge. *)
Theorem content_is_placeholder_without_sku_or_on_error
  (env : Env) (product : option Product) (onErr : callback)
  (hasError : bool) (opts : DisplayOptions) (wp hp : size) :
  productSku product = None \/ hasError = true ->
  ProductImageContent env product onErr hasError opts wp hp
  = Div (containerClassname env)
      [ImagePlaceholder (useCssHandles env CSS_HANDLES "productImage")] /\
  imageProps (ProductImageContent env product onErr hasError opts wp hp) = [] /\
  imgs (renderImages env
          (ProductImageContent env product onErr hasError opts wp hp)) = [] /\
  badges (ProductImageContent env product onErr hasError opts wp hp) = 0%nat.
Proof.
  intros H. rewrite (ProductImageContent_guard _ _ _ _ _ _ _ H).
  repeat split.
Qed.

(** A product without a sku, and a full product after an error. *)
Lemma content_is_placeholder_witness :
  ProductImageContent storefront
    (Some {| productName := VStr "Shoe"; productClusters := None;
             sku := None |})
    (SetError true) false hoverOptions (Some 100) None
  = placeholder storefront /\
  ProductImageContent storefront (Some shoe) (SetError true) true
    hoverOptions (Some 100) None
  = placeholder storefront.
Proof.
  split.
  - apply (content_is_placeholder_without_sku_or_on_error storefront
             (Some {| productName := VStr "Shoe"; productClusters := None;
                      sku := None |})
             (SetError true) false hoverOptions (Some 100) None).
    left. reflexivity.
  - apply (content_is_placeholder_without_sku_or_on_error storefront
             (Some shoe) (SetError true) true hoverOptions (Some 100) None).
    right. reflexivity.
Defined.

(** ** Rendering the [<Image/>] nodes *)

(** A tree without [<img>] of its own gets exactly one [<img>] for each of
    its [<Image/>] nodes, in the same order. *)
Lemma renderImages_imgs (env : Env) (e : element) :
  imgs e = [] ->
  map Img (imgs (renderImages env e)) = map (Image env) (imageProps e).
Proof.
  induction e as [|c children IH|a|p|hd|lp sp lb child IH|txt child IH]
    using element_tree_ind; simpl; intros He; try reflexivity; auto.
  - induction children as [|x rest IHrest]; simpl in *; [reflexivity|].
    apply app_eq_nil in He. destruct He as [Hx Hrest].
    inversion IH as [|? ? IHx IHtail]; subst.
    rewrite !map_app, (IHx Hx), (IHrest IHtail Hrest). reflexivity.
  - discriminate.
Qed.

Lemma imgs_maybeBadge (bp : BadgeProps) (b : bool) (e : element) :
  imgs (maybeBadge bp b e) = imgs e.
Proof. destruct b; reflexivity. Qed.

Lemma imgs_maybeCollection
  (clusters : option (list Cluster)) (b : bool) (e : element) :
  imgs (maybeCollection clusters b e) = imgs e.
Proof.
  unfold maybeCollection. destruct clusters as [cls|]; [|reflexivity].
  destruct (b && _); reflexivity.
Qed.

Lemma imgs_baseComposition (env : Env) (s : Sku) (onErr : callback)
  (opts : DisplayOptions) (nm : value) (w h : Z) :
  imgs (baseComposition env s onErr opts nm w h) = [].
Proof.
  unfold baseComposition. simpl.
  destruct (findImageByLabel (skuImages s) (hoverImageLabel opts));
    [destruct (isMobile env)|]; reflexivity.
Qed.

(** [ProductImageContent] never writes an [<img>] itself. *)
Lemma imgs_ProductImageContent (env : Env) (product : option Product)
  (onErr : callback) (hasError : bool) (opts : DisplayOptions)
  (wp hp : size) :
  imgs (ProductImageContent env product onErr hasError opts wp hp) = [].
Proof.
  unfold ProductImageContent. destruct (resolveSize wp hp) as [w h].
  destruct (productSku product) as [s|]; [|reflexivity].
  destruct hasError; [reflexivity|].
  unfold compose.
  now rewrite imgs_maybeBadge, imgs_maybeCollection, imgs_baseComposition.
Qed.

(** The [<Image/>] nodes of a shown product. *)
Lemma imageProps_shown (env : Env) (p : Product) (s : Sku)
  (onErr : callback) (opts : DisplayOptions) (wp hp : size) :
  sku p = Some s ->
  exists cls hoverCls,
    imageProps (ProductImageContent env (Some p) onErr false opts wp hp) =
    {| src := primaryImageUrl env s (mainImageLabel opts);
       width := fst (resolveSize wp hp); height := snd (resolveSize wp hp);
       onError := onErr; alt := productName p; className := cls |} ::
    match findImageByLabel (skuImages s) (hoverImageLabel opts) with
    | Some hover =>
        if isMobile env then []
        else [{| src := imageUrl hover;
                 width := fst (resolveSize wp hp);
                 height := snd (resolveSize wp hp);
                 onError := onErr; alt := productName p;
                 className := hoverCls |}]
    | None => []
    end.
Proof.
  intros Hs. rewrite (ProductImageContent_shown _ _ _ _ _ _ _ Hs).
  rewrite imageProps_maybeBadge, imageProps_maybeCollection.
  apply imageProps_baseComposition.
Qed.

(** ** The primary image url *)

Lemma defaultImageUrl_present (s : Sku) (i : ImageItem) :
  image s = Some i -> is_nullish (imageUrl i) = false ->
  defaultImageUrl s = imageUrl i.
Proof.
  intros Hi Hn. unfold defaultImageUrl, defaultTo. now rewrite Hi, Hn.
Qed.

Lemma defaultImageUrl_absent (s : Sku) :
  (forall i, image s = Some i -> is_nullish (imageUrl i) = true) ->
  defaultImageUrl s = VObj [].
Proof.
  intros H. unfold defaultImageUrl, defaultTo.
  destruct (image s) as [i|]; [|reflexivity].
  now rewrite (H i eq_refl).
Qed.

Lemma primaryImageUrl_override (env : Env) (s : Sku) (lbl : string)
  (m : ImageItem) :
  is_nullish (selectedImageVariationSKU env) = true ->
  findImageByLabel (skuImages s) lbl = Some m ->
  primaryImageUrl env s lbl = imageUrl m.
Proof.
  intros Hsel Hm. unfold primaryImageUrl. rewrite Hsel, Hm.
  apply findImageByLabel_some in Hm. destruct Hm as [Hne _].
  apply truthy_string_true in Hne. now rewrite Hne.
Qed.

Lemma primaryImageUrl_default (env : Env) (s : Sku) (lbl : string) :
  is_nullish (selectedImageVariationSKU env) = false \/
  findImageByLabel (skuImages s) lbl = None ->
  primaryImageUrl env s lbl = defaultImageUrl s.
Proof.
  intros [Hsel|Hnone]; unfold primaryImageUrl.
  - now rewrite Hsel.
  - rewrite Hnone. now destruct (_ && _).
Qed.

(** C4: the primary url is [sku.image.imageUrl] by default.  With no selected
    variation, a non-empty [mainImageLabel] and an image carrying exactly
    that label, it is the url of the first such image; when a variation is
    selected, the label is empty or no image carries it, the default stays.
    The url so resolved is the [src] of the first [<Image/>]. *)
Theorem primary_image_url_resolution (env : Env) (s : Sku) (lbl : string) :
  (forall i,
     image s = Some i -> is_nullish (imageUrl i) = false ->
     defaultImageUrl s = imageUrl i) /\
  (forall pre m post,
     is_nullish (selectedImageVariationSKU env) = true ->
     lbl <> "" ->
     skuImages s = pre ++ m :: post ->
     imageLabel m = VStr lbl ->
     Forall (fun i => imageLabel i <> VStr lbl) pre ->
     primaryImageUrl env s lbl = imageUrl m) /\
  (is_nullish (selectedImageVariationSKU env) = false \/
   lbl = "" \/
   Forall (fun i => imageLabel i <> VStr lbl) (skuImages s) ->
   primaryImageUrl env s lbl = defaultImageUrl s) /\
  (forall p onErr opts wp hp,
     sku p = Some s -> mainImageLabel opts = lbl ->
     exists rest,
       map src
         (imageProps (ProductImageContent env (Some p) onErr false opts wp hp))
       = primaryImageUrl env s lbl :: rest).
Proof.
  split; [apply defaultImageUrl_present|].
  split; [|split].
  - intros pre m post Hsel Hne Himgs Hm Hpre.
    apply primaryImageUrl_override; [assumption|].
    apply findImageByLabel_some. split; [assumption|].
    exists pre, post. auto.
  - intros [Hsel|H]; apply primaryImageUrl_default; [now left|right].
    now apply findImageByLabel_none.
  - intros p onErr opts wp hp Hs <-.
    destruct (imageProps_shown env p s onErr opts wp hp Hs)
      as (cls & hoverCls & E).
    rewrite E. simpl. eauto.
Qed.

(** The shoe: its default image is the front one; the label [back] selects
    the second image; an unknown label leaves the default. *)
Lemma primary_image_url_resolution_witness :
  defaultImageUrl shoeSku = VStr "/arquivos/front.png" /\
  primaryImageUrl storefront shoeSku "back" = VStr "/arquivos/back.png" /\
  primaryImageUrl storefront shoeSku "side" = VStr "/arquivos/front.png".
Proof.
  destruct (primary_image_url_resolution storefront shoeSku "back")
    as (Hdef & Hover & _ & _).
  destruct (primary_image_url_resolution storefront shoeSku "side")
    as (_ & _ & Hkeep & _).
  split; [|split].
  - apply (Hdef frontImage); reflexivity.
  - apply (Hover [frontImage] backImage []);
      [reflexivity | discriminate | reflexivity | reflexivity |].
    constructor; [discriminate | constructor].
  - rewrite Hkeep; [apply (Hdef frontImage); reflexivity|].
    right. right. repeat constructor; discriminate.
Defined.

(** ** The hover image *)

(** C5: the hover image is the first image whose label is exactly
    [hoverImageLabel], and nothing is looked up for the empty label.  A shown
    product has two images when such an image exists and the device is not
    mobile, and one image otherwise; the same holds of the [<img>] elements
    after rendering. *)
Theorem hover_image_presence (env : Env) (p : Product) (s : Sku)
  (onErr : callback) (opts : DisplayOptions) (wp hp : size) :
  sku p = Some s ->
  findImageByLabel (skuImages s) "" = None /\
  (forall m,
     findImageByLabel (skuImages s) (hoverImageLabel opts) = Some m ->
     imageLabel m = VStr (hoverImageLabel opts) /\ In m (skuImages s)) /\
  (List.length
     (imageProps (ProductImageContent env (Some p) onErr false opts wp hp))
   = 2%nat <->
   (hoverImageLabel opts <> "" /\
    (exists i, In i (skuImages s) /\
               imageLabel i = VStr (hoverImageLabel opts)) /\
    isMobile env = false)) /\
  (List.length
     (imageProps (ProductImageContent env (Some p) onErr false opts wp hp))
   = 1%nat <->
   ~ (hoverImageLabel opts <> "" /\
      (exists i, In i (skuImages s) /\
                 imageLabel i = VStr (hoverImageLabel opts)) /\
      isMobile env = false)) /\
  List.length
    (imgs (renderImages env
             (ProductImageContent env (Some p) onErr false opts wp hp)))
  = List.length
      (imageProps (ProductImageContent env (Some p) onErr false opts wp hp)).
Proof.
  intros Hs.
  split; [reflexivity|].
  split.
  { intros m Hm. apply findImageByLabel_some in Hm.
    destruct Hm as (_ & pre & post & E & Hm & _).
    split; [assumption|]. rewrite E. apply in_or_app. right. now left. }
  assert (Hrender :
    List.length
      (imgs (renderImages env
               (ProductImageContent env (Some p) onErr false opts wp hp)))
    = List.length
        (imageProps (ProductImageContent env (Some p) onErr false opts wp hp))).
  { rewrite <- (length_map Img), renderImages_imgs, length_map;
      [reflexivity | apply imgs_ProductImageContent]. }
  destruct (imageProps_shown env p s onErr opts wp hp Hs)
    as (cls & hoverCls & E).
  rewrite Hrender, E. clear E Hrender.
  destruct (String.eqb_spec (hoverImageLabel opts) "") as [Hempty|Hne].
  - rewrite Hempty, findImageByLabel_empty. simpl.
    repeat split; try discriminate; try tauto.
  - pose proof (labelled_image_found (skuImages s) _ Hne) as Hfound.
    destruct (findImageByLabel (skuImages s) (hoverImageLabel opts))
      as [m|] eqn:F.
    + assert (Hex : exists i, In i (skuImages s) /\
                              imageLabel i = VStr (hoverImageLabel opts))
        by (apply Hfound; eauto).
      destruct (isMobile env); simpl; repeat split;
        try discriminate; try tauto; try congruence.
      * intros (_ & _ & Hmob). discriminate.
      * intros _ (_ & _ & Hmob). discriminate.
    + assert (Hnex : ~ exists i, In i (skuImages s) /\
                                 imageLabel i = VStr (hoverImageLabel opts)).
      { intros Hex. apply Hfound in Hex. destruct Hex; discriminate. }
      simpl. repeat split; try discriminate; try tauto.
Qed.

(** The shoe with the hover label [back], on a desktop: two images. *)
Lemma hover_image_presence_witness :
  sku shoe = Some shoeSku /\
  List.length
    (imageProps (ProductImageContent storefront (Some shoe) (SetError true)
                   false hoverOptions (Some 100) None))
  = 2%nat.
Proof.
  split; [reflexivity|].
  destruct (hover_image_presence storefront shoe shoeSku (SetError true)
              hoverOptions (Some 100) None eq_refl) as (_ & _ & Htwo & _).
  apply Htwo. split; [discriminate|]. split; [|reflexivity].
  exists backImage. split; [|reflexivity]. right. now left.
Defined.

(** ** Badge wrapping *)

(** C6: with both flags on and at least one cluster, the discount badge is
    the outermost element and the collection badges, labelled with the
    cluster names, sit directly inside it, around the base composition.  The
    collections decorator wraps only when its flag is on and the cluster list
    is not empty. *)
Theorem badges_wrap_collections_then_discount
  (env : Env) (p : Product) (s : Sku) (onErr : callback)
  (opts : DisplayOptions) (wp hp : size) (c : Cluster) (cls : list Cluster) :
  sku p = Some s ->
  productClusters p = Some (c :: cls) ->
  showBadge opts = true ->
  showCollections opts = true ->
  ProductImageContent env (Some p) onErr false opts wp hp
  = DiscountBadge
      (ListPrice (productOffer (Some p))) (Price (productOffer (Some p)))
      (badgeText opts)
      (CollectionBadges (map name (c :: cls))
         (baseComposition env s onErr opts (productName p)
            (fst (resolveSize wp hp)) (snd (resolveSize wp hp)))) /\
  (forall bp e,
     compose (maybeBadge bp true) (maybeCollection (Some (c :: cls)) true) e
     = DiscountBadge (badge_listPrice bp) (badge_price bp) (badge_label bp)
         (CollectionBadges (map name (c :: cls)) e)) /\
  (forall clusters flag e,
     flag = false \/ clusters = None \/ clusters = Some [] ->
     maybeCollection clusters flag e = e).
Proof.
  intros Hs Hc Hb Hcol. split; [|split].
  - rewrite (ProductImageContent_shown _ _ _ _ _ _ _ Hs), Hc, Hb, Hcol.
    rewrite maybeCollection_wraps. reflexivity.
  - intros bp e. unfold compose. rewrite maybeCollection_wraps. reflexivity.
  - intros clusters flag e [-> | [-> | ->]].
    + destruct clusters; reflexivity.
    + reflexivity.
    + destruct flag; reflexivity.
Qed.

(** The shoe belongs to two collections and is sold at a discount. *)
Lemma badges_wrap_witness :
  exists base,
    ProductImageContent storefront (Some shoe) (SetError true) false
      hoverOptions (Some 100) None
    = DiscountBadge (VNum 120) (VNum 90) (VStr "OFF")
        (CollectionBadges [VStr "Summer"; VStr "Sale"] base).
Proof.
  eexists.
  apply (badges_wrap_collections_then_discount storefront shoe shoeSku
           (SetError true) hoverOptions (Some 100) None
           {| name := VStr "Summer" |} [{| name := VStr "Sale" |}]);
    reflexivity.
Defined.

(** ** A sku without a primary image url *)

(** C10, the counterexample: the sku has no [image] field, yet with the main
    label [back] and no selected variation the primary image gets the url of
    the image labelled [back], not the empty object. *)
Lemma missing_image_url_overridden_by_label :
  sku bareShoe = Some bareSku /\
  image bareSku = None /\
  map src
    (imageProps
       (ProductImageContent storefront (Some bareShoe) (SetError true) false
          {| showBadge := false; badgeText := VUndefined;
             displayMode := "normal"; mainImageLabel := "back";
             hoverImageLabel := ""; showCollections := false |}
          None None))
  = [VStr "/arquivos/back.png"] /\
  VStr "/arquivos/back.png" <> VObj [].
Proof.
  repeat split. discriminate.
Qed.

(** C10, as the code has it: when the sku is there, no error is set and
    [sku.image.imageUrl] is missing, the default url is the empty object and
    the component shows an image, not the placeholder.  The first [<Image/>]
    has the empty object as its [src] unless the main label selects an image
    while no variation is selected; then it has that image's url.  The [<img>]
    it renders to carries that [src] as it is when nothing is resized, and
    what [changeImageUrlSize] makes of it otherwise. *)
Theorem missing_image_url_still_renders_image
  (env : Env) (p : Product) (s : Sku) (onErr : callback)
  (opts : DisplayOptions) (wp hp : size) :
  sku p = Some s ->
  (forall i, image s = Some i -> is_nullish (imageUrl i) = true) ->
  defaultImageUrl s = VObj [] /\
  ProductImageContent env (Some p) onErr false opts wp hp <> placeholder env /\
  exists primary rest,
    imageProps (ProductImageContent env (Some p) onErr false opts wp hp)
    = primary :: rest /\
    (is_nullish (selectedImageVariationSKU env) = false \/
     findImageByLabel (skuImages s) (mainImageLabel opts) = None ->
     src primary = VObj []) /\
    (forall m,
       is_nullish (selectedImageVariationSKU env) = true ->
       findImageByLabel (skuImages s) (mainImageLabel opts) = Some m ->
       src primary = imageUrl m) /\
    exists a others,
      imgs (renderImages env
              (ProductImageContent env (Some p) onErr false opts wp hp))
      = a :: others /\
      img_src a =
      if shouldResize (width primary) (height primary)
      then changeImageUrlSize env (src primary)
             (width primary * dpi env) (height primary * dpi env)
      else src primary.
Proof.
  intros Hs Habsent.
  pose proof (defaultImageUrl_absent s Habsent) as Hdef.
  destruct (imageProps_shown env p s onErr opts wp hp Hs)
    as (cls & hoverCls & E).
  split; [assumption|]. split.
  - intros Heq. rewrite Heq in E. discriminate.
  - do 2 eexists. split; [exact E|]. simpl. split; [|split].
    + intros H. now rewrite primaryImageUrl_default.
    + intros m Hsel Hm. now apply primaryImageUrl_override.
    + pose proof (renderImages_imgs env _
                    (imgs_ProductImageContent env (Some p) onErr false
                       opts wp hp)) as R.
      rewrite E in R. simpl in R.
      destruct (imgs (renderImages env _)) as [|a others]; [discriminate|].
      exists a, others. split; [reflexivity|].
      simpl in R. injection R as Ra _. rewrite Ra. reflexivity.
Qed.

(** The bare shoe with default options: the image source is the empty
    object. *)
Lemma missing_image_url_witness :
  sku bareShoe = Some bareSku /\
  exists primary rest,
    imageProps (ProductImageContent storefront (Some bareShoe)
                  (SetError true) false defaultProps None None)
    = primary :: rest /\
    src primary = VObj [].
Proof.
  split; [reflexivity|].
  destruct (missing_image_url_still_renders_image storefront bareShoe bareSku
              (SetError true) defaultProps None None eq_refl)
    as (_ & _ & primary & rest & E & Hsrc & _).
  - intros i Hi. discriminate.
  - exists primary, rest. split; [exact E|].
    apply Hsrc. right. reflexivity.
Defined.

(** ** The error state *)

Lemma imgs_ProductImage (env : Env) (opts : DisplayOptions)
  (wp hp : SizeProp) (st : State) :
  imgs (ProductImage env opts wp hp st) = [].
Proof.
  unfold ProductImage. destruct (useResponsiveValues env wp hp) as [w h].
  simpl. now rewrite imgs_ProductImageContent.
Qed.

Lemma imageProps_ProductImage (env : Env) (opts : DisplayOptions)
  (wp hp : SizeProp) (st : State) :
  imageProps (ProductImage env opts wp hp st)
  = imageProps
      (ProductImageContent env (summaryProduct env) (SetError true) st opts
         (fst (useResponsiveValues env wp hp))
         (snd (useResponsiveValues env wp hp))).
Proof.
  unfold ProductImage. destruct (useResponsiveValues env wp hp) as [w h].
  simpl. apply app_nil_r.
Qed.


(** [Image] hands its [onError] prop to the [<img>]. *)
Lemma rendered_onError (env : Env) (l : list ImgAttrs) (ps : list ImageProps) :
  map Img l = map (Image env) ps ->
  map img_onError l = map onError ps.
Proof.
  revert ps. induction l as [|a l IH]; intros [|q ps] E; try discriminate.
  - reflexivity.
  - simpl in E. injection E as Ea El. simpl. f_equal; [|now apply IH].
    now rewrite Ea.
Qed.

Lemma errorCallbacks_props (env : Env) (opts : DisplayOptions)
  (wp hp : SizeProp) (st : State) :
  errorCallbacks env opts wp hp st
  = map onError (imageProps (ProductImage env opts wp hp st)).
Proof.
  unfold errorCallbacks. apply (rendered_onError env).
  apply renderImages_imgs, imgs_ProductImage.
Qed.









(** * Further properties of the component *)

(** ** Sizes *)

Lemma oror_num_truthy (a : size) :
  truthy_size a = true -> oror_num a 0 <> 0.
Proof.
  destruct a as [n|]; simpl; [|discriminate].
  destruct (Z.eqb_spec n 0); simpl; [discriminate|auto].
Qed.

(** X1: the resolved width and height are 0 together or not at all, and the
    image is resized exactly when the width prop or the height prop is
    truthy; so a resized url is never asked for with a 0 dimension. *)
Theorem resolved_sizes_vanish_together (wp hp : size) :
  (fst (resolveSize wp hp) = 0 <-> snd (resolveSize wp hp) = 0) /\
  shouldResize (fst (resolveSize wp hp)) (snd (resolveSize wp hp))
  = truthy_size wp || truthy_size hp /\
  (shouldResize (fst (resolveSize wp hp)) (snd (resolveSize wp hp)) = true ->
   fst (resolveSize wp hp) <> 0 /\ snd (resolveSize wp hp) <> 0).
Proof.
  rewrite resolveSize_cases.
  destruct (truthy_size wp) eqn:Tw, (truthy_size hp) eqn:Th; simpl;
    try (pose proof (oror_num_truthy wp Tw) as Hw);
    try (pose proof (oror_num_truthy hp Th) as Hh).
  - repeat split; try tauto.
    apply shouldResize_true. now left.
  - repeat split; try tauto.
    apply shouldResize_true. now left.
  - repeat split; try tauto.
    apply shouldResize_true. now left.
  - repeat split; try tauto; discriminate.
Qed.

(** X2: a size of 0 is treated exactly like a size that was not given. *)
Theorem zero_size_counts_as_missing (wp hp : size) :
  resolveSize (Some 0) hp = resolveSize None hp /\
  resolveSize wp (Some 0) = resolveSize wp None.
Proof.
  rewrite !resolveSize_cases. split; simpl.
  - destruct (truthy_size hp); reflexivity.
  - destruct (truthy_size wp); reflexivity.
Qed.

(** X3: resolving an already resolved pair changes nothing. *)
Theorem resolveSize_idempotent (wp hp : size) :
  resolveSize (Some (fst (resolveSize wp hp))) (Some (snd (resolveSize wp hp)))
  = resolveSize wp hp.
Proof.
  rewrite (resolveSize_cases wp hp).
  destruct (truthy_size wp) eqn:Tw, (truthy_size hp) eqn:Th; simpl;
    try (pose proof (oror_num_truthy wp Tw) as Hw);
    try (pose proof (oror_num_truthy hp Th) as Hh);
    try (now apply resolveSize_both).
  reflexivity.
Qed.

(** ** Label lookup *)

(** X4: [findImageByLabel] returns the first image whose label is exactly the
    selected string; it returns nothing exactly when the label is empty or no
    image carries it.  An image whose label is not a string is never found. *)
Theorem findImageByLabel_first_exact_match
  (l : list ImageItem) (lbl : string) :
  match findImageByLabel l lbl with
  | Some m =>
      lbl <> "" /\
      exists pre post,
        l = pre ++ m :: post /\ imageLabel m = VStr lbl /\
        Forall (fun i => imageLabel i <> VStr lbl) pre
  | None =>
      lbl = "" \/ Forall (fun i => imageLabel i <> VStr lbl) l
  end.
Proof.
  destruct (findImageByLabel l lbl) as [m|] eqn:F.
  - now apply findImageByLabel_some.
  - now apply findImageByLabel_none.
Qed.

(** ** The hover image *)

(** X5: on a device that is not mobile, a matching hover label gives exactly
    two images; the second one shows the first matching image and has the
    width, height, alt text and error callback of the primary one.  A
    selected variation, which switches the main label off, does not affect
    the hover image. *)
Theorem hover_image_props (env : Env) (p : Product) (s : Sku)
  (onErr : callback) (opts : DisplayOptions) (wp hp : size) (m : ImageItem) :
  sku p = Some s ->
  isMobile env = false ->
  findImageByLabel (skuImages s) (hoverImageLabel opts) = Some m ->
  exists primary hover,
    imageProps (ProductImageContent env (Some p) onErr false opts wp hp)
    = [primary; hover] /\
    src hover = imageUrl m /\
    width hover = width primary /\ height hover = height primary /\
    (width primary, height primary) = resolveSize wp hp /\
    alt hover = alt primary /\ alt primary = productName p /\
    onError hover = onErr /\ onError primary = onErr.
Proof.
  intros Hs Hmob Hm.
  destruct (imageProps_shown env p s onErr opts wp hp Hs)
    as (cls & hoverCls & E).
  rewrite Hm, Hmob in E.
  do 2 eexists. split; [exact E|].
  cbn [src width height alt onError].
  repeat split.
Qed.

(** The shoe while a variation is selected: the hover image is still the one
    labelled [back]. *)
Lemma hover_image_props_witness :
  exists primary hover,
    imageProps
      (ProductImageContent
         {| isMobile := false;
            selectedImageVariationSKU := VStr "2000535";
            summaryProduct := None;
            useResponsiveValues := useResponsiveValues storefront;
            changeImageUrlSize := changeImageUrlSize storefront;
            cssHandle := cssHandle storefront;
            applyModifiers := applyModifiers storefront;
            productSummary := productSummary storefront |}
         (Some shoe) (SetError true) false hoverOptions (Some 100) None)
    = [primary; hover] /\
    src hover = VStr "/arquivos/back.png".
Proof.
  destruct (hover_image_props
              {| isMobile := false;
                 selectedImageVariationSKU := VStr "2000535";
                 summaryProduct := None;
                 useResponsiveValues := useResponsiveValues storefront;
                 changeImageUrlSize := changeImageUrlSize storefront;
                 cssHandle := cssHandle storefront;
                 applyModifiers := applyModifiers storefront;
                 productSummary := productSummary storefront |}
              shoe shoeSku (SetError true) hoverOptions (Some 100) None
              backImage eq_refl eq_refl eq_refl)
    as (primary & hover & E & Hsrc & _).
  exists primary, hover. split; [exact E | exact Hsrc].
Defined.

(** ** Badges *)

Lemma badges_baseComposition (env : Env) (s : Sku) (onErr : callback)
  (opts : DisplayOptions) (nm : value) (w h : Z) :
  badges (baseComposition env s onErr opts nm w h) = 0%nat.
Proof.
  unfold baseComposition. simpl.
  destruct (findImageByLabel (skuImages s) (hoverImageLabel opts));
    [destruct (isMobile env)|]; reflexivity.
Qed.

Lemma badges_maybeBadge (bp : BadgeProps) (b : bool) (e : element) :
  badges (maybeBadge bp b e) = (Nat.b2n b + badges e)%nat.
Proof. destruct b; reflexivity. Qed.

Lemma badges_maybeCollection
  (clusters : option (list Cluster)) (b : bool) (e : element) :
  badges (maybeCollection clusters b e)
  = (Nat.b2n (b && match clusters with
                   | Some (_ :: _) => true
                   | _ => false
                   end)
     + badges e)%nat.
Proof.
  destruct clusters as [[|c cls]|].
  - destruct b; reflexivity.
  - destruct b; [|reflexivity]. now rewrite maybeCollection_wraps.
  - destruct b; reflexivity.
Qed.

(** X6: a shown product carries one badge wrapper for [showBadge] and one
    more for [showCollections] when the product has at least one cluster;
    nothing else adds a badge. *)
Theorem badge_count (env : Env) (p : Product) (s : Sku) (onErr : callback)
  (opts : DisplayOptions) (wp hp : size) :
  sku p = Some s ->
  badges (ProductImageContent env (Some p) onErr false opts wp hp)
  = (Nat.b2n (showBadge opts)
     + Nat.b2n (showCollections opts &&
                match productClusters p with
                | Some (_ :: _) => true
                | _ => false
                end))%nat.
Proof.
  intros Hs. rewrite (ProductImageContent_shown _ _ _ _ _ _ _ Hs).
  rewrite badges_maybeBadge, badges_maybeCollection, badges_baseComposition.
  now rewrite Nat.add_0_r.
Qed.

(** The shoe, in two collections, with both flags on: two badge wrappers. *)
Lemma badge_count_witness :
  badges (ProductImageContent storefront (Some shoe) (SetError true) false
            hoverOptions (Some 100) None)
  = 2%nat.
Proof.
  exact (badge_count storefront shoe shoeSku (SetError true) hoverOptions
           (Some 100) None eq_refl).
Defined.

(** X7: whenever [showBadge] is on, a shown product is wrapped in the
    discount badge, whether or not there is a discount or any price at all.
    The badge gets [ListPrice] and [Price] of [sku.seller.commertialOffer]
    and [badgeText] as its label; without a seller or without an offer both
    prices are [undefined]. *)
Theorem discount_badge_props (env : Env) (p : Product) (s : Sku)
  (onErr : callback) (opts : DisplayOptions) (wp hp : size) :
  sku p = Some s ->
  showBadge opts = true ->
  (exists inner,
     ProductImageContent env (Some p) onErr false opts wp hp
     = DiscountBadge (ListPrice (productOffer (Some p)))
         (Price (productOffer (Some p))) (badgeText opts) inner) /\
  (forall sl co,
     seller s = Some sl -> commertialOffer sl = Some co ->
     productOffer (Some p) = co) /\
  (seller s = None \/ seller s = Some {| commertialOffer := None |} ->
   ListPrice (productOffer (Some p)) = VUndefined /\
   Price (productOffer (Some p)) = VUndefined).
Proof.
  intros Hs Hb. split; [|split].
  - rewrite (ProductImageContent_shown _ _ _ _ _ _ _ Hs), Hb. simpl. eauto.
  - intros sl co Hsl Hco. simpl. now rewrite Hs, Hsl, Hco.
  - intros [Hn|Hn]; simpl; rewrite Hs, Hn; split; reflexivity.
Qed.

(** The bare shoe has no seller: the badge is there, without prices. *)
Lemma discount_badge_props_witness :
  exists inner,
    ProductImageContent storefront (Some bareShoe) (SetError true) false
      hoverOptions None None
    = DiscountBadge VUndefined VUndefined (VStr "OFF") inner.
Proof.
  destruct (discount_badge_props storefront bareShoe bareSku (SetError true)
              hoverOptions None None eq_refl eq_refl) as ((inner & E) & _ & _).
  exists inner. exact E.
Defined.

(** ** CSS classes *)

(** X8: the placeholder never gets a CSS handle: the component reads
    [handles.productImage], and [productImage] is not among [CSS_HANDLES].
    This holds for the placeholder shown without a sku and for the one shown
    after an error. *)
Theorem placeholder_has_no_css_handle (env : Env) (opts : DisplayOptions)
  (wp hp : SizeProp) (st : State) :
  productSku (summaryProduct env) = None \/ st = true ->
  ProductImage env opts wp hp st
  = Div (imageClassName env (displayMode opts))
      [Div (containerClassname env) [ImagePlaceholder None]].
Proof.
  intros H. unfold ProductImage.
  destruct (useResponsiveValues env wp hp) as [w h].
  now rewrite (ProductImageContent_guard _ _ _ _ _ _ _ H).
Qed.

Lemma placeholder_has_no_css_handle_witness :
  ProductImage storefront hoverOptions (SizeNumber 100) SizeUndefined false
  = Div (imageClassName storefront "normal")
      [Div (containerClassname storefront) [ImagePlaceholder None]].
Proof.
  apply (placeholder_has_no_css_handle storefront hoverOptions
           (SizeNumber 100) SizeUndefined false).
  left. reflexivity.
Defined.

(** X9: the outer container of [ProductImage] has the class
    [productSummary.imageContainer] alone in the inline display mode, and
    that class followed by [db w-100 center] in every other mode. *)
Theorem container_class_by_display_mode (env : Env) (opts : DisplayOptions)
  (wp hp : SizeProp) (st : State) :
  (exists child,
     ProductImage env opts wp hp st
     = Div (imageClassName env (displayMode opts)) [child]) /\
  imageClassName env "inline" = productSummary env "imageContainer" /\
  (forall mode,
     mode <> "inline" ->
     imageClassName env mode =
     if String.eqb (productSummary env "imageContainer") ""
     then "db w-100 center"
     else String.append (productSummary env "imageContainer")
            " db w-100 center").
Proof.
  split; [|split].
  - unfold ProductImage. destruct (useResponsiveValues env wp hp). eauto.
  - unfold imageClassName, classNames. simpl.
    destruct (truthy_string (productSummary env "imageContainer")) eqn:T;
      simpl; [reflexivity|].
    apply truthy_string_false in T. now rewrite T.
  - intros mode Hmode. apply String.eqb_neq in Hmode.
    unfold imageClassName, classNames. simpl. rewrite Hmode.
    unfold truthy_string.
    destruct (String.eqb (productSummary env "imageContainer") "");
      reflexivity.
Qed.

(** X10: the image gets the class [productSummary.imageInline] in the inline
    display mode and [productSummary.imageNormal] in every other mode; should
    the CSS module give both the same name, the class is only applied in the
    inline mode, because the second key of the object literal replaces the
    first. *)
Theorem image_class_by_display_mode (env : Env) (mode : string) :
  legacyImageClasses env mode =
  if String.eqb mode "inline" then productSummary env "imageInline"
  else if String.eqb (productSummary env "imageInline")
            (productSummary env "imageNormal")
       then ""
       else productSummary env "imageNormal".
Proof.
  unfold legacyImageClasses, classNames, object. simpl.
  destruct (String.eqb_spec (productSummary env "imageInline")
              (productSummary env "imageNormal")) as [E|E];
    destruct (String.eqb mode "inline"); simpl; congruence.
Qed.

(** ** What the rendered images look like *)

(** Every [<Image/>] of one render gets the resolved width and height. *)
Lemma imageProps_sizes (env : Env) (product : option Product)
  (onErr : callback) (hasError : bool) (opts : DisplayOptions)
  (wp hp : size) :
  Forall (fun q => width q = fst (resolveSize wp hp) /\
                   height q = snd (resolveSize wp hp))
    (imageProps (ProductImageContent env product onErr hasError opts wp hp)).
Proof.
  destruct (productSku product) as [s|] eqn:Hs.
  - destruct hasError.
    + rewrite ProductImageContent_guard by now right. constructor.
    + destruct product as [p|]; [|discriminate]. simpl in Hs.
      destruct (imageProps_shown env p s onErr opts wp hp Hs)
        as (cls & hoverCls & E).
      rewrite E. constructor; [split; reflexivity|].
      destruct (findImageByLabel _ _); [destruct (isMobile env)|];
        repeat constructor.
  - rewrite ProductImageContent_guard by now left. constructor.
Qed.

Lemma rendered_attrs (env : Env) (w h : Z) (active : bool)
  (l : list ImgAttrs) (ps : list ImageProps) :
  shouldResize w h = active ->
  Forall (fun q => width q = w /\ height q = h) ps ->
  map Img l = map (Image env) ps ->
  Forall (fun a =>
            img_loading a = (if active then "lazy" else "auto") /\
            img_style a = (if active then resizeStyle w h else VNull)) l /\
  map img_src l =
  map (fun q => if active
                then changeImageUrlSize env (src q) (w * dpi env) (h * dpi env)
                else src q) ps.
Proof.
  intros Hact. revert ps.
  induction l as [|a l IH]; intros [|q ps] Hps E; try discriminate.
  - split; [constructor | reflexivity].
  - inversion Hps as [|q' ps' [Hw Hh] Htail]. clear Hps.
    simpl in E. injection E as Ea El.
    destruct (IH ps Htail El) as [Hall Hsrc].
    rewrite Ea. simpl. rewrite Hw, Hh, Hact, Hsrc.
    split; [constructor; [split; reflexivity | exact Hall] | reflexivity].
Qed.

(** X11: all [<img>] elements of one render agree: they load lazily and carry
    the sizing style exactly when the width prop or the height prop is
    truthy, and get ['auto'] and no style otherwise; each source is what
    [changeImageUrlSize] returns for the resolved sizes times the density in
    the first case and the url itself in the second. *)
Theorem rendered_images_agree (env : Env) (product : option Product)
  (onErr : callback) (hasError : bool) (opts : DisplayOptions)
  (wp hp : size) :
  Forall (fun a =>
            img_loading a
            = (if truthy_size wp || truthy_size hp then "lazy" else "auto") /\
            img_style a
            = (if truthy_size wp || truthy_size hp
               then resizeStyle (fst (resolveSize wp hp))
                      (snd (resolveSize wp hp))
               else VNull))
    (imgs (renderImages env
             (ProductImageContent env product onErr hasError opts wp hp))) /\
  map img_src
    (imgs (renderImages env
             (ProductImageContent env product onErr hasError opts wp hp)))
  = map (fun q =>
           if truthy_size wp || truthy_size hp
           then changeImageUrlSize env (src q)
                  (fst (resolveSize wp hp) * dpi env)
                  (snd (resolveSize wp hp) * dpi env)
           else src q)
      (imageProps (ProductImageContent env product onErr hasError opts wp hp)).
Proof.
  apply rendered_attrs.
  - rewrite resolveSize_cases.
    destruct (truthy_size wp) eqn:Tw, (truthy_size hp) eqn:Th; simpl;
      try (apply shouldResize_true; left; now apply oror_num_truthy).
    reflexivity.
  - apply imageProps_sizes.
  - apply renderImages_imgs, imgs_ProductImageContent.
Qed.

(** ** Where a missing source can come from *)

(** X12: the default url is never [null] or [undefined].  The primary source
    can only be [null] or [undefined] when no variation is selected and the
    main label picks an image whose own [imageUrl] is missing, because that
    url is taken without a default. *)
Theorem primary_src_nullish_only_via_label
  (env : Env) (s : Sku) (lbl : string) :
  is_nullish (defaultImageUrl s) = false /\
  (is_nullish (primaryImageUrl env s lbl) = true ->
   is_nullish (selectedImageVariationSKU env) = true /\
   lbl <> "" /\
   exists m,
     findImageByLabel (skuImages s) lbl = Some m /\
     is_nullish (imageUrl m) = true).
Proof.
  assert (Hdef : is_nullish (defaultImageUrl s) = false).
  { unfold defaultImageUrl, defaultTo.
    destruct (image s) as [i|]; [|reflexivity].
    destruct (is_nullish (imageUrl i)) eqn:N; [reflexivity | exact N]. }
  split; [exact Hdef|].
  unfold primaryImageUrl.
  destruct (is_nullish (selectedImageVariationSKU env)) eqn:Hsel;
    destruct (truthy_string lbl) eqn:T; simpl; try congruence.
  destruct (findImageByLabel (skuImages s) lbl) as [m|] eqn:F;
    [|congruence].
  intros Hm. apply truthy_string_true in T. eauto.
Qed.

(** A sku whose image labelled [front] has no url of its own. *)
Lemma primary_src_nullish_witness :
  exists m,
    findImageByLabel [{| imageLabel := VStr "front"; imageUrl := VNull |}]
      "front" = Some m /\
    is_nullish (imageUrl m) = true.
Proof.
  destruct (primary_src_nullish_only_via_label storefront
              {| images :=
                   Some [{| imageLabel := VStr "front"; imageUrl := VNull |}];
                 image := Some frontImage; seller := None |} "front")
    as (_ & H).
  destruct (H eq_refl) as (_ & _ & m & Hm & Hnull).
  exists m. split; [exact Hm | exact Hnull].
Defined.

(** ** The default configuration *)

(** X13: with [ProductImage.defaultProps] a shown product is one image, with
    the default url as its source and no hover image, wrapped in the discount
    badge alone; no label is looked up and the badge has no label. *)
Theorem default_props_render (env : Env) (p : Product) (s : Sku)
  (onErr : callback) (wp hp : size) :
  sku p = Some s ->
  exists cls,
    ProductImageContent env (Some p) onErr false defaultProps wp hp
    = DiscountBadge (ListPrice (productOffer (Some p)))
        (Price (productOffer (Some p))) VUndefined
        (Div (containerClassname env)
           [ImageElt {| src := defaultImageUrl s;
                        width := fst (resolveSize wp hp);
                        height := snd (resolveSize wp hp);
                        onError := onErr;
                        alt := productName p;
                        className := cls |};
            Nothing]).
Proof.
  intros Hs. rewrite (ProductImageContent_shown _ _ _ _ _ _ _ Hs).
  eexists. unfold baseComposition, primaryImageUrl. simpl.
  rewrite andb_false_r.
  destruct (productClusters p); reflexivity.
Qed.

Lemma default_props_render_witness :
  map src
    (imageProps (ProductImageContent storefront (Some shoe) (SetError true)
                   false defaultProps None None))
  = [VStr "/arquivos/front.png"].
Proof.
  destruct (default_props_render storefront shoe shoeSku (SetError true)
              None None eq_refl) as (cls & E).
  rewrite E. reflexivity.
Defined.

(** ** Error callbacks *)

(** X14: a render hands out no error callback exactly when it shows the
    placeholder, that is without a sku or in the error state; otherwise it
    hands out one callback for each image, one or two. *)
Theorem error_callbacks_empty_iff_placeholder (env : Env)
  (opts : DisplayOptions) (wp hp : SizeProp) (st : State) :
  (errorCallbacks env opts wp hp st = [] <->
   productSku (summaryProduct env) = None \/ st = true) /\
  (errorCallbacks env opts wp hp st <> [] ->
   errorCallbacks env opts wp hp st = [SetError true] \/
   errorCallbacks env opts wp hp st = [SetError true; SetError true]).
Proof.
  rewrite errorCallbacks_props, imageProps_ProductImage.
  destruct (productSku (summaryProduct env)) as [s|] eqn:Hs.
  - destruct st.
    + rewrite ProductImageContent_guard by now right.
      split; [split; auto | intros H; now contradiction H].
    + destruct (summaryProduct env) as [p|]; [|discriminate]. simpl in Hs.
      destruct (imageProps_shown env p s (SetError true) opts
                  (fst (useResponsiveValues env wp hp))
                  (snd (useResponsiveValues env wp hp)) Hs)
        as (cls & hoverCls & E).
      rewrite E. split.
      * split; [discriminate|]. intros [H|H]; discriminate.
      * intros _.
        destruct (findImageByLabel _ _); [destruct (isMobile env)|];
          simpl; auto.
  - rewrite ProductImageContent_guard by now left.
    split; [split; auto | intros H; now contradiction H].
Qed.

(** ** A sku without an image list *)

(** X15: when the sku has no [images] field, or an empty list, no label can
    select anything: a shown product is exactly one image with the default
    url, whatever the main and hover labels are. *)
Theorem no_image_list_no_label_match (env : Env) (p : Product) (s : Sku)
  (onErr : callback) (opts : DisplayOptions) (wp hp : size) :
  sku p = Some s ->
  images s = None \/ images s = Some [] ->
  exists cls,
    imageProps (ProductImageContent env (Some p) onErr false opts wp hp)
    = [{| src := defaultImageUrl s;
          width := fst (resolveSize wp hp);
          height := snd (resolveSize wp hp);
          onError := onErr;
          alt := productName p;
          className := cls |}].
Proof.
  intros Hs Himgs.
  assert (Hnone : forall lbl, findImageByLabel (skuImages s) lbl = None).
  { intros lbl. unfold skuImages, findImageByLabel.
    destruct Himgs as [-> | ->]; now destruct (negb (truthy_string lbl)). }
  destruct (imageProps_shown env p s onErr opts wp hp Hs)
    as (cls & hoverCls & E).
  rewrite Hnone in E.
  rewrite primaryImageUrl_default in E by (right; apply Hnone).
  eauto.
Qed.

(** A shoe whose sku lists no images, asked for the labels of the full one. *)
Lemma no_image_list_witness :
  map src
    (imageProps
       (ProductImageContent storefront
          (Some {| productName := VStr "Shoe"; productClusters := None;
                   sku := Some {| images := None; image := Some frontImage;
                                  seller := None |} |})
          (SetError true) false
          {| showBadge := true; badgeText := VStr "OFF";
             displayMode := "normal"; mainImageLabel := "back";
             hoverImageLabel := "back"; showCollections := true |}
          (Some 100) None))
  = [VStr "/arquivos/front.png"].
Proof.
  destruct (no_image_list_no_label_match storefront
              {| productName := VStr "Shoe"; productClusters := None;
                 sku := Some {| images := None; image := Some frontImage;
                                seller := None |} |}
              {| images := None; image := Some frontImage; seller := None |}
              (SetError true)
              {| showBadge := true; badgeText := VStr "OFF";
                 displayMode := "normal"; mainImageLabel := "back";
                 hoverImageLabel := "back"; showCollections := true |}
              (Some 100) None eq_refl (or_introl eq_refl)) as (cls & E).
  rewrite E. reflexivity.
Defined.
